(** * The [subscribe] command handler of the channels-feed bot

    Source: [src/bot/src/handler/commands/subscribe.py].

    The handler talks to three collaborators: the command object
    ([command.is_private()]), the base handler ([self.reply]) and the
    subscription service ([subscriptions.subscribe]).  Every call to a
    collaborator is recorded, in program order, in an event log that is
    threaded through the handler together with the state of the service;
    Python exceptions are the error component of the monad.

    The subscription service and the fanout dispatcher are not part of the
    source tree; modules [Manager] and [Dispatcher] model them from the
    specification. *)

From stdpp Require Import base list sorting gmap strings.

(** ** Python values the handler touches *)

Module Py.

(** Exceptions, classified the way the handler's [except] clause sees
    them: [GenericSubscriptionError] stands for that class and its
    subclasses and carries [str(e)]; [KeyError] is what a failed dict
    subscript raises; [OtherException] is any exception that is not an
    instance of [GenericSubscriptionError]. *)
Inductive exception :=
| GenericSubscriptionError (text : string)
| KeyError (key : string)
| OtherException (cls : string) (text : string).

(** [isinstance(e, GenericSubscriptionError)] *)
Definition is_subscription_error (e : exception) : bool :=
  match e with
  | GenericSubscriptionError _ => true
  | _ => false
  end.

(** Does character [c] occur in [s]? *)
Fixpoint occurs (c : Ascii.ascii) (s : string) : bool :=
  match s with
  | EmptyString => false
  | String x s' => Ascii.eqb x c || occurs c s'
  end.

(** One lowercase hexadecimal digit. *)
Definition hex_digit (n : nat) : Ascii.ascii :=
  Ascii.ascii_of_nat (if Nat.ltb n 10 then 48 + n else 87 + n).

(** How [repr] writes one character of a string between [quote]s: the
    quote and the backslash (92) behind a backslash, tab, newline and
    carriage return by their letter, the other control characters and
    127 as [\xhh], everything else as it is.  Text is held as UTF-8
    bytes; bytes from 128 on are kept, which is what Python does for
    printable characters outside ASCII. *)
Definition escape (quote c : Ascii.ascii) : string :=
  let n := Ascii.nat_of_ascii c in
  let backslash := Ascii.ascii_of_nat 92 in
  if Ascii.eqb c quote || Nat.eqb n 92
  then String backslash (String c EmptyString)
  else if Nat.eqb n 9 then String backslash "t"
  else if Nat.eqb n 10 then String backslash "n"
  else if Nat.eqb n 13 then String backslash "r"
  else if Nat.ltb n 32 || Nat.eqb n 127
  then String backslash
         ("x" +:+ String (hex_digit (Nat.div n 16))
                    (String (hex_digit (Nat.modulo n 16)) EmptyString))
  else String c EmptyString.

Fixpoint escape_all (quote : Ascii.ascii) (s : string) : string :=
  match s with
  | EmptyString => EmptyString
  | String c s' => escape quote c +:+ escape_all quote s'
  end.

(** [repr(s)] of a string: between single quotes (39), or between double
    quotes (34) when the string holds a single quote and no double
    quote. *)
Definition repr (s : string) : string :=
  let single := Ascii.ascii_of_nat 39 in
  let double := Ascii.ascii_of_nat 34 in
  let quote := if occurs single s && negb (occurs double s)
               then double else single in
  String quote (escape_all quote s +:+ String quote EmptyString).

(** [str(e)]; a [KeyError] prints the repr of its key. *)
Definition str (e : exception) : string :=
  match e with
  | GenericSubscriptionError text => text
  | KeyError key => repr key
  | OtherException _ text => text
  end.

(** Outcome of evaluating a Python expression or statement. *)
Inductive result (A : Type) :=
| Return (a : A)
| Raise (e : exception).
Arguments Return {A} a.
Arguments Raise {A} e.

(** The double quote character, [chr(34)]. *)
Definition dquote : string := String (Ascii.ascii_of_nat 34) EmptyString.

(** ['Successfully subscribed to "{}" (@{})'.format(name, url)] *)
Definition format_subscribed (name url : string) : string :=
  "Successfully subscribed to " +:+ dquote +:+ name +:+ dquote
    +:+ " (@" +:+ url +:+ ")".

(** [needle in text] on strings. *)
Definition contains (needle text : string) : Prop :=
  exists before after, text = before +:+ needle +:+ after.

End Py.

Export Py.

(** ** Commands, channels, events *)

(** Modelled from the spec: the Subscriber of the data model, whose class
    is missing from the source tree: an opaque chat identifier and the
    capability flag, private or group, that [is_private] reports. *)
Record Subscriber := mkSubscriber {
  chat_id : Z;
  private : bool
}.

(** Modelled from the spec: the command object handed to [execute],
    whose class is missing from the source tree:
    [Command{ subscriberContext, rawChannelIdentifier }]. *)
Record Command := mkCommand {
  subscriberContext : Subscriber;
  rawChannelIdentifier : string
}.

(** The value [subscriptions.subscribe] returns: a dict with string keys.
    Values are held by their [str()] rendering, which is what [format]
    inserts. *)
Abbreviation Channel := (gmap string string).

(** Calls to collaborators, in the order the handler makes them. *)
Inductive event :=
| IsPrivate (command : Command)
| Subscribe (command : Command)
| Reply (command : Command) (text : string).

#[global] Instance Subscriber_eq_dec : EqDecision Subscriber.
Proof. solve_decision. Defined.
#[global] Instance Command_eq_dec : EqDecision Command.
Proof. solve_decision. Defined.
#[global] Instance event_eq_dec : EqDecision event.
Proof. solve_decision. Defined.
#[global] Instance exception_eq_dec : EqDecision exception.
Proof. solve_decision. Defined.

(** ** The handler *)

Section Handler.

(** State of the subscription service (its Store and Registry), and the
    service entry point [subscriptions.subscribe]: it returns a channel
    or raises, and may change the service state either way. *)
Variable Service : Type.
Variable subscribe : Command -> Service -> result Channel * Service.

Record World := mkWorld {
  service : Service;
  events : list event
}.

(** Computations of the handler: state passing over [World], with
    Python exceptions. *)
Definition M (A : Type) : Type := World -> result A * World.

Definition ret {A} (a : A) : M A := fun w => (Return a, w).

Definition raise {A} (e : exception) : M A := fun w => (Raise e, w).

Definition bind {A B} (m : M A) (k : A -> M B) : M B :=
  fun w =>
    match m w with
    | (Return a, w') => k a w'
    | (Raise e, w') => (Raise e, w')
    end.

(** [try: body  except <cls> as e: handler e]: an exception the filter
    does not accept keeps propagating. *)
Definition try_except {A} (body : M A) (catches : exception -> bool)
    (handler : exception -> M A) : M A :=
  fun w =>
    match body w with
    | (Return a, w') => (Return a, w')
    | (Raise e, w') =>
        if catches e then handler e w' else (Raise e, w')
    end.

Definition emit (ev : event) : M unit :=
  fun w => (Return tt, mkWorld (service w) (events w ++ [ev])).

#[local] Instance M_ret : MRet M := @ret.
#[local] Instance M_bind : MBind M := fun A B k m => bind m k.

(** [command.is_private()]: a call to the command object that reports the
    capability flag of its context. *)
Definition is_private (command : Command) : M bool :=
  emit (IsPrivate command) ;;
  mret (private (subscriberContext command)).

(** [self.reply(command, text)]: the reply channel of the base handler,
    a call that hands [text] to the transport and returns. *)
Definition reply (command : Command) (text : string) : M unit :=
  emit (Reply command text).

(** The service acting on its own state; the log is untouched. *)
Definition call_service (command : Command) : M Channel :=
  fun w =>
    let (r, s') := subscribe command (service w) in
    (r, mkWorld s' (events w)).

(** [subscriptions.subscribe(command)] *)
Definition subscriptions_subscribe (command : Command) : M Channel :=
  emit (Subscribe command) ;;
  call_service command.

(** [channel[key]] *)
Definition getitem (channel : Channel) (key : string) : M string :=
  match channel !! key with
  | Some v => mret v
  | None => raise (KeyError key)
  end.

Definition unsupported : string := "Groups currently are not supported!".

(** [Subscribe.execute(self, command)] *)
Definition execute (command : Command) : M unit :=
  p ← is_private command ;
  (if negb p
   then reply command unsupported
   else mret tt) ;;
  try_except
    (channel ← subscriptions_subscribe command ;
     name ← getitem channel "name" ;
     url ← getitem channel "url" ;
     reply command (format_subscribed name url))
    is_subscription_error
    (fun e => reply command (str e)).

(** *** Observations on a run *)

(** Running the handler from a service state and an empty log. *)
Definition run (command : Command) (s : Service) : result unit * World :=
  execute command (mkWorld s []).

Definition reply_text (ev : event) : option string :=
  match ev with
  | Reply _ text => Some text
  | _ => None
  end.

Definition is_reply (ev : event) : bool :=
  match ev with
  | Reply _ _ => true
  | _ => false
  end.

(** The texts of the replies in a log, oldest first. *)
Definition replies (evs : list event) : list string :=
  omap reply_text evs.

(** How the run ended, the calls it made, the replies it sent. *)
Definition outcome (command : Command) (s : Service) : result unit :=
  (run command s).1.

Definition trace (command : Command) (s : Service) : list event :=
  events (run command s).2.

Definition sent (command : Command) (s : Service) : list string :=
  replies (trace command s).

(** What the context check leaves in the log before the [try] block
    starts: nothing for a private chat, the rejection text otherwise. *)
Definition guard_events (command : Command) : list event :=
  if private (subscriberContext command)
  then []
  else [Reply command unsupported].

(** *** The cases of the service's answer *)

(** [answered r text]: the service's outcome [r] is one of the two the
    handler answers, and [text] is the answer: the success message built
    from the channel's [name] and [url], or the text of the
    subscription error. *)
Inductive answered : result Channel -> string -> Prop :=
| answered_channel (c : Channel) (name url : string) :
    c !! "name" = Some name ->
    c !! "url" = Some url ->
    answered (Return c) (format_subscribed name url)
| answered_error (e : exception) :
    is_subscription_error e = true ->
    answered (Raise e) (str e).

(** [escapes r e]: with the service's outcome [r], exception [e] leaves
    the [try] block without meeting the [except] clause: an exception of
    another class raised by the service, or the [KeyError] of the first
    missing subscript, [name] before [url]. *)
Inductive escapes : result Channel -> exception -> Prop :=
| escapes_other (e : exception) :
    is_subscription_error e = false ->
    escapes (Raise e) e
| escapes_no_name (c : Channel) :
    c !! "name" = None ->
    escapes (Return c) (KeyError "name")
| escapes_no_url (c : Channel) (name : string) :
    c !! "name" = Some name ->
    c !! "url" = None ->
    escapes (Return c) (KeyError "url").

End Handler.

Arguments mkWorld {Service} _ _.
Arguments service {Service} _.
Arguments events {Service} _.
Arguments execute {Service} _ _ _.
Arguments run {Service} _ _ _.
Arguments outcome {Service} _ _ _.
Arguments trace {Service} _ _ _.
Arguments sent {Service} _ _ _.

(** [Subscribe.name], the word that routes a command to this handler. *)
Definition command_name : string := "subscribe".

(** The command a call is about: the receiver of [is_private], the
    argument of [subscribe], the first argument of [reply]. *)
Definition event_command (ev : event) : Command :=
  match ev with
  | IsPrivate command => command
  | Subscribe command => command
  | Reply command _ => command
  end.

Definition is_service_call (ev : event) : bool :=
  match ev with
  | Subscribe _ => true
  | _ => false
  end.

(** Number of calls to [subscriptions.subscribe] in a log. *)
Definition service_calls (evs : list event) : nat :=
  length (List.filter is_service_call evs).

(** ** Sample data *)

Definition tech_news : Channel :=
  {[ "name" := "Tech News"; "url" := "https://example.com/tech" ]}.

(** A channel value that lacks its [url]. *)
Definition tech_news_no_url : Channel := {[ "name" := "Tech News" ]}.

(** A private chat and a group chat asking for the same channel. *)
Definition U1 : Subscriber := mkSubscriber 1 true.
Definition G1 : Subscriber := mkSubscriber (-100) false.
Definition u1_subscribes : Command := mkCommand U1 "tech-news".
Definition g1_subscribes : Command := mkCommand G1 "tech-news".

(** Services without state, fixed to one outcome. *)
Definition returning (c : Channel) : Command -> unit -> result Channel * unit :=
  fun _ s => (Return c, s).
Definition raising (e : exception) : Command -> unit -> result Channel * unit :=
  fun _ s => (Raise e, s).

(** ** Channels as the registry keeps them *)

(** Modelled from the spec: the Channel record of the data model, which
    the source tree does not contain: identifier, display name, source
    URL and the last-seen-content cursor. *)
Record ChannelRecord := mkChannel {
  identifier : string;
  display_name : string;
  source_url : string;
  cursor : Z
}.

(** The dict the command layer receives for a channel. *)
Definition channel_dict (ch : ChannelRecord) : Channel :=
  {[ "name" := display_name ch; "url" := source_url ch ]}.

(** ** The subscription service *)

Module Manager.

(** Modelled from the spec: the error kinds a subscribe request can
    signal; the exception classes themselves are missing from the source
    tree. *)
Inductive error :=
| UnsupportedContext
| UnknownChannel (raw : string)
| AmbiguousChannel (raw : string)
| AlreadySubscribed (existing : ChannelRecord)
| NotSubscribed.

(** Modelled from the spec: a Subscription, the (Subscriber, Channel) pair
    with its creation timestamp. *)
Record Subscription := mkSubscription {
  subscriber_id : Z;
  channel_id : string;
  created : nat
}.

(** What the feed provider's [fetchMetadata] yields. *)
Record Metadata := mkMetadata {
  meta_name : string;
  meta_url : string
}.

(** Modelled from the spec: the state of the missing service: the
    Subscription table of the Store, the Channel table of the Registry,
    and a clock for creation timestamps. *)
Record State := mkState {
  store : list Subscription;
  registry : gmap string ChannelRecord;
  clock : nat
}.

Definition same_pair (subscriber : Z) (channel : string)
    (s : Subscription) : bool :=
  bool_decide (subscriber_id s = subscriber /\ channel_id s = channel).

(** Is the pair in the table? *)
Definition subscribed (subscriber : Z) (channel : string)
    (table : list Subscription) : bool :=
  existsb (same_pair subscriber channel) table.

(** Number of Subscriptions the table holds for the pair. *)
Definition count (subscriber : Z) (channel : string)
    (table : list Subscription) : nat :=
  length (List.filter (same_pair subscriber channel) table).

(** Modelled from the spec: [Store.add], which is missing from the source
    tree: [add(subscriber, channel) -> Subscription |
    fails(AlreadySubscribed)]. [None] is the failure. *)
Definition add (subscriber : Z) (channel : string) (now : nat)
    (table : list Subscription) : option Subscription * list Subscription :=
  if subscribed subscriber channel table
  then (None, table)
  else
    let s := mkSubscription subscriber channel now in
    (Some s, s :: table).

Section Provider.

(** The feed provider's [fetchMetadata]; [None] is [NotFound]. *)
Variable fetchMetadata : string -> option Metadata.

(** Modelled from the spec: [Registry.resolve], which is missing from the
    source tree: a known channel is answered from the table, an unknown
    one is validated with the feed provider and registered on first
    success. *)
Definition resolve (raw : string) (known : gmap string ChannelRecord)
    : (ChannelRecord + error) * gmap string ChannelRecord :=
  match known !! raw with
  | Some ch => (inl ch, known)
  | None =>
      match fetchMetadata raw with
      | Some m =>
          let ch := mkChannel raw (meta_name m) (meta_url m) 0 in
          (inl ch, <[raw := ch]> known)
      | None => (inr (UnknownChannel raw), known)
      end
  end.

(** Modelled from the spec: [Manager.subscribe], the function behind
    [subscriptions.subscribe], which is missing from the source tree.
    Policy, in order: (1) reject a context that is not private;
    (2) resolve the channel, propagating the failure; (3) attempt
    [Store.add], signalling [AlreadySubscribed] with the existing channel;
    (4) on success return the channel. *)
Definition subscribe (subscriber : Subscriber) (raw : string) (st : State)
    : (ChannelRecord + error) * State :=
  if negb (private subscriber)
  then (inr UnsupportedContext, st)
  else
    match resolve raw (registry st) with
    | (inr e, known) => (inr e, mkState (store st) known (clock st))
    | (inl ch, known) =>
        match add (chat_id subscriber) (identifier ch) (clock st) (store st) with
        | (None, table) =>
            (inr (AlreadySubscribed ch), mkState table known (clock st))
        | (Some _, table) =>
            (inl ch, mkState table known (S (clock st)))
        end
    end.

End Provider.

(** The service at process start. *)
Definition empty : State := mkState [] ∅ 0.

(** The Store invariant: at most one Subscription per pair. *)
Definition at_most_one (table : list Subscription) : Prop :=
  forall subscriber channel, count subscriber channel table <= 1.

End Manager.

(** Modelled from the spec: the service as the handler calls it, the
    module [subscriptions] being missing from the source tree: the
    command's context and raw identifier go to [Manager.subscribe]; a
    channel comes back as its dict, an error kind as a
    [GenericSubscriptionError] with the text [render] gives it. *)
Definition service_subscribe (fetchMetadata : string -> option Manager.Metadata)
    (render : Manager.error -> string) (command : Command)
    (st : Manager.State) : result Channel * Manager.State :=
  match Manager.subscribe fetchMetadata (subscriberContext command)
          (rawChannelIdentifier command) st with
  | (inl ch, st') => (Return (channel_dict ch), st')
  | (inr e, st') => (Raise (GenericSubscriptionError (render e)), st')
  end.

(** ** The fanout dispatcher *)

Module Dispatcher.

(** Modelled from the spec: a content item with its identifier and the
    source-provided sequence that orders the items of a channel. *)
Record ContentItem := mkItem {
  item_id : Z;
  sequence : Z
}.

(** What the transport's [deliver] answers. *)
Inductive delivery := Success | Transient | Permanent.

(** The transport collaborator: subscriber, item and the number of the
    attempt (from 0) give the answer of that attempt. *)
Definition Transport : Type := Z -> ContentItem -> nat -> delivery.

(** The key of the DeliveryRecord table: (channelId, itemId, subscriberId). *)
Definition Key : Type := string * Z * Z.

(** Modelled from the spec: what the missing dispatcher owns: the
    DeliveryRecord table, each key with the outcome recorded for it, newest
    first, and, for the statements only, the log of the deliveries the
    transport accepted. *)
Record State := mkState {
  records : list (Key * bool);
  handed_over : list Key
}.

Definition empty : State := mkState [] [].

(** Is there a successful DeliveryRecord for the key? *)
Definition succeeded (k : Key) (table : list (Key * bool)) : bool :=
  existsb (fun r => bool_decide (r = (k, true))) table.

(** Number of deliveries of the key the transport accepted. *)
Definition received (k : Key) (log : list Key) : nat :=
  length (List.filter (fun k' => bool_decide (k' = k)) log).

(** What the table and the log owe each other: a key is handed over at
    most once, and never without a successful record. *)
Definition consistent (st : State) : Prop :=
  forall k,
    received k (handed_over st) <= 1
    /\ (succeeded k (records st) = false -> received k (handed_over st) = 0).

Section Fanout.

(** The fixed attempt cap of the retry policy. *)
Variable attempt_cap : nat.

(** Modelled from the spec: delivery to one subscriber with bounded retry:
    a transient failure is retried until the cap, a permanent one is not.
    [left] attempts remain. *)
Fixpoint attempt (deliver : Transport) (subscriber : Z) (item : ContentItem)
    (left : nat) : bool :=
  match left with
  | 0 => false
  | S left' =>
      match deliver subscriber item (attempt_cap - left) with
      | Success => true
      | Permanent => false
      | Transient => attempt deliver subscriber item left'
      end
  end.

(** Modelled from the spec: one subscriber of the snapshot: skip it when a
    successful DeliveryRecord exists, otherwise attempt delivery and
    record the outcome. *)
Definition deliver_to (channel : string) (item : ContentItem)
    (deliver : Transport) (st : State) (subscriber : Z) : State :=
  let k : Key := (channel, item_id item, subscriber) in
  if succeeded k (records st)
  then st
  else if attempt deliver subscriber item attempt_cap
  then mkState ((k, true) :: records st) (handed_over st ++ [k])
  else mkState ((k, false) :: records st) (handed_over st).

(** Modelled from the spec: the missing [dispatch]: fan one item out to
    the subscribers enumerated at dispatch time. *)
Definition dispatch (channel : string) (item : ContentItem)
    (deliver : Transport) (snapshot : list Z) (st : State) : State :=
  foldl (deliver_to channel item deliver) st snapshot.

(** A dispatch run as it happened: which item of which channel, the
    transport's behaviour during the run, and the subscribers the run got
    to; a run cut short by a crash got to a prefix of its snapshot. *)
Record Run := mkRun {
  run_channel : string;
  run_item : ContentItem;
  run_transport : Transport;
  run_subscribers : list Z
}.

Definition perform (st : State) (r : Run) : State :=
  dispatch (run_channel r) (run_item r) (run_transport r)
    (run_subscribers r) st.

(** The dispatcher's state after a history of runs. *)
Definition after (history : list Run) : State :=
  foldl perform empty history.

(** *** The cursor *)

(** Modelled from the spec: an item is new for a channel when its
    sequence lies past the cursor; items at or before the cursor were seen
    already. *)
Definition is_new (ch : ChannelRecord) (item : ContentItem) : bool :=
  bool_decide (cursor ch < sequence item)%Z.

Definition advance (ch : ChannelRecord) (item : ContentItem) : ChannelRecord :=
  mkChannel (identifier ch) (display_name ch) (source_url ch) (sequence item).

(** The per-channel loop: the channel, the dispatcher's table, and the
    polls in flight, each with the items it still has to hand in. *)
Record Loop := mkLoop {
  channel : ChannelRecord;
  table : State;
  in_flight : list (list ContentItem)
}.

(** What can happen next in the loop: a poll returns from the feed
    provider with its items, or the dispatcher takes the next item of one
    of the polls in flight.  Polls overlap freely; items are processed one
    at a time. *)
Inductive action :=
| Poll (items : list ContentItem)
| Process (poll : nat) (deliver : Transport) (snapshot : list Z).

(** Modelled from the spec: ingestion of one item by the missing per-channel
    loop: a new item is dispatched and the cursor advanced past it; an
    item already seen is dropped. *)
Definition ingest (item : ContentItem) (deliver : Transport)
    (snapshot : list Z) (l : Loop) : Loop :=
  if is_new (channel l) item
  then mkLoop (advance (channel l) item)
         (dispatch (identifier (channel l)) item deliver snapshot (table l))
         (in_flight l)
  else l.

Definition step (l : Loop) (a : action) : Loop :=
  match a with
  | Poll items => mkLoop (channel l) (table l) (in_flight l ++ [items])
  | Process i deliver snapshot =>
      match in_flight l !! i with
      | Some (item :: rest) =>
          ingest item deliver snapshot
            (mkLoop (channel l) (table l) (<[i := rest]> (in_flight l)))
      | _ => l
      end
  end.

(** The loop after a schedule of actions, and the cursor after each. *)
Definition execute_schedule (l : Loop) (schedule : list action) : Loop :=
  foldl step l schedule.

Fixpoint cursor_history (l : Loop) (schedule : list action) : list Z :=
  match schedule with
  | [] => []
  | a :: schedule' =>
      cursor (channel (step l a)) :: cursor_history (step l a) schedule'
  end.

End Fanout.

End Dispatcher.

(** ** A sample feed *)

(** A feed provider that knows the channel [tech-news] only. *)
Definition sample_feed (raw : string) : option Manager.Metadata :=
  if bool_decide (raw = "tech-news")
  then Some (Manager.mkMetadata "Tech News" "https://example.com/tech")
  else None.

Definition tech_news_channel : ChannelRecord :=
  mkChannel "tech-news" "Tech News" "https://example.com/tech" 0.

(** Reply texts for the error kinds. *)
Definition sample_render (e : Manager.error) : string :=
  match e with
  | Manager.UnsupportedContext => "This chat cannot subscribe"
  | Manager.UnknownChannel raw => "Unknown channel " +:+ raw
  | Manager.AmbiguousChannel raw => "Ambiguous channel " +:+ raw
  | Manager.AlreadySubscribed ch => "Already subscribed to " +:+ display_name ch
  | Manager.NotSubscribed => "Not subscribed"
  end.

(** A failure that is not a subscription error. *)
Definition timed_out : exception := OtherException "ConnectionError" "timed out".

(** A transport that accepts everything, and one that fails subscriber 2
    for good. *)
Definition reliable : Dispatcher.Transport :=
  fun _ _ _ => Dispatcher.Success.
Definition failing_for_2 : Dispatcher.Transport :=
  fun subscriber _ _ =>
    if bool_decide (subscriber = 2%Z)
    then Dispatcher.Permanent
    else Dispatcher.Success.

Definition I1 : Dispatcher.ContentItem := Dispatcher.mkItem 101 1.
Definition I2 : Dispatcher.ContentItem := Dispatcher.mkItem 102 2.
Definition I3 : Dispatcher.ContentItem := Dispatcher.mkItem 103 3.

(** * Properties of the handler *)

Section HandlerFacts.

Context {Service : Type}.
Variable subscribe : Command -> Service -> result Channel * Service.

Ltac unfold_run :=
  unfold outcome, sent, trace, run, execute, guard_events, is_private, reply,
    subscriptions_subscribe, call_service, try_except, getitem, emit,
    mbind, mret, M_bind, M_ret, bind, ret, raise; simpl.

(** A run whose service outcome the handler answers. *)
Lemma run_answered command s r s' text :
  subscribe command s = (r, s') ->
  answered r text ->
  run subscribe command s =
    (Return tt,
     mkWorld s' (IsPrivate command :: guard_events command
                   ++ [Subscribe command; Reply command text])).
Proof.
  intros Hs Ha. unfold_run.
  destruct Ha as [c name url Hn Hu | e He];
    destruct (private (subscriberContext command)); simpl;
    rewrite Hs; simpl; rewrite ?Hn, ?Hu, ?He; reflexivity.
Qed.

(** A run whose service outcome leaves the [try] block as an exception. *)
Lemma run_escapes command s r s' e :
  subscribe command s = (r, s') ->
  escapes r e ->
  run subscribe command s =
    (Raise e,
     mkWorld s' (IsPrivate command :: guard_events command
                   ++ [Subscribe command])).
Proof.
  intros Hs He. unfold_run.
  destruct He as [e He | c Hn | c name Hn Hu];
    destruct (private (subscriberContext command)); simpl;
    rewrite Hs; simpl; rewrite ?Hn, ?Hu; simpl; rewrite ?He; reflexivity.
Qed.

Lemma escapes_not_caught r e :
  escapes r e -> is_subscription_error e = false.
Proof. destruct 1; trivial. Qed.

(** The two classifications exclude each other and cover every outcome. *)
Lemma answered_or_escapes r :
  (exists text, answered r text) \/ (exists e, escapes r e).
Proof.
  destruct r as [c | e].
  - destruct (c !! "name") as [name |] eqn:Hn.
    + destruct (c !! "url") as [url |] eqn:Hu.
      * left. eexists. by eapply answered_channel.
      * right. eexists. by eapply escapes_no_url.
    + right. eexists. by eapply escapes_no_name.
  - destruct (is_subscription_error e) eqn:He.
    + left. eexists. by eapply answered_error.
    + right. eexists. by eapply escapes_other.
Qed.

Lemma string_app_assoc (a b c : string) :
  (a +:+ b) +:+ c = a +:+ b +:+ c.
Proof.
  induction a as [| x a IH]; [reflexivity |].
  change (String x ((a +:+ b) +:+ c) = String x (a +:+ b +:+ c)).
  by rewrite IH.
Qed.

Lemma replies_guard command :
  replies (guard_events command) =
    if private (subscriberContext command) then [] else [unsupported].
Proof. unfold guard_events. destruct (private _); reflexivity. Qed.

Lemma replies_run_answered command text :
  replies (IsPrivate command :: guard_events command
             ++ [Subscribe command; Reply command text]) =
    replies (guard_events command) ++ [text].
Proof. unfold guard_events. destruct (private _); reflexivity. Qed.

Lemma replies_run_escapes command :
  replies (IsPrivate command :: guard_events command ++ [Subscribe command]) =
    replies (guard_events command).
Proof. unfold guard_events. destruct (private _); reflexivity. Qed.

(** Whatever the context and the service, the service is called. *)
Lemma service_called command s :
  Subscribe command ∈ trace subscribe command s.
Proof.
  unfold_run.
  destruct (private (subscriberContext command)); simpl;
    destruct (subscribe command s) as [[c | e] s']; simpl;
    try destruct (c !! "name"); simpl;
    try destruct (c !! "url"); simpl;
    try destruct (is_subscription_error e); simpl;
    set_solver.
Qed.

(** C6. The policy steps run in order: in every run the call to
    [command.is_private()] is the first thing the handler does, and the
    call to [subscriptions.subscribe(command)] comes after it; all other
    calls, before and after the service call, are replies. *)
Theorem context_check_precedes_service command s :
  exists rest,
    trace subscribe command s =
      IsPrivate command :: guard_events command
        ++ Subscribe command :: rest
    /\ forallb is_reply (guard_events command ++ rest) = true.
Proof.
  unfold_run.
  destruct (private (subscriberContext command)); simpl;
    destruct (subscribe command s) as [[c | e] s']; simpl;
    try destruct (c !! "name"); simpl;
    try destruct (c !! "url"); simpl;
    try destruct (is_subscription_error e); simpl;
    eexists; split; try reflexivity; reflexivity.
Qed.

(** C3. When [subscriptions.subscribe(command)] raises a
    [GenericSubscriptionError] [e], the handler catches it: the run ends
    normally, and after the service call exactly one reply is sent, with
    text [str(e)]; no success message follows.  The replies of the whole
    run are those of the context check followed by [str(e)]. *)
Theorem subscription_error_is_replied command s e s' :
  subscribe command s = (Raise e, s') ->
  is_subscription_error e = true ->
  outcome subscribe command s = Return tt
  /\ trace subscribe command s =
       IsPrivate command :: guard_events command
         ++ [Subscribe command; Reply command (str e)]
  /\ sent subscribe command s = replies (guard_events command) ++ [str e].
Proof.
  intros Hs He.
  pose proof (run_answered _ _ _ _ _ Hs (answered_error e He)) as Hrun.
  unfold outcome, sent, trace. rewrite Hrun. simpl.
  split; [reflexivity |]. split; [reflexivity |].
  apply replies_run_answered.
Qed.

(** The success message, character by character: the fixed words, the
    name between two double quotes (character 34), the url between
    [(@] and [)]. *)
Lemma format_subscribed_text name url :
  format_subscribed name url =
    "Successfully subscribed to "
      +:+ String (Ascii.ascii_of_nat 34)
            (name +:+ String (Ascii.ascii_of_nat 34)
                        (" (@" +:+ url +:+ ")")).
Proof. reflexivity. Qed.

(** C4. When [subscriptions.subscribe(command)] returns a channel [c]
    with [c['name'] = name] and [c['url'] = url], the handler ends
    normally and its last call is the reply whose text is
    [Successfully subscribed to ], a double quote (character 34), the
    name, a double quote, [ (@], the url and [)]; that text is the last
    reply of the run, and it contains both the display name and the
    url. *)
Theorem success_reply_names_channel command s c s' name url :
  subscribe command s = (Return c, s') ->
  c !! "name" = Some name ->
  c !! "url" = Some url ->
  let text :=
    "Successfully subscribed to "
      +:+ String (Ascii.ascii_of_nat 34)
            (name +:+ String (Ascii.ascii_of_nat 34)
                        (" (@" +:+ url +:+ ")")) in
  outcome subscribe command s = Return tt
  /\ last (trace subscribe command s) = Some (Reply command text)
  /\ sent subscribe command s = replies (guard_events command) ++ [text]
  /\ contains name text
  /\ contains url text.
Proof.
  intros Hs Hn Hu text.
  pose proof (run_answered _ _ _ _ _ Hs (answered_channel c name url Hn Hu))
    as Hrun.
  rewrite format_subscribed_text in Hrun. fold text in Hrun.
  unfold outcome, sent, trace. rewrite Hrun. simpl.
  split; [reflexivity |]. split.
  { unfold guard_events. destruct (private _); reflexivity. }
  split; [apply replies_run_answered |]. split.
  - exists ("Successfully subscribed to "
              +:+ String (Ascii.ascii_of_nat 34) EmptyString),
      (String (Ascii.ascii_of_nat 34) (" (@" +:+ url +:+ ")")).
    reflexivity.
  - exists ("Successfully subscribed to "
              +:+ String (Ascii.ascii_of_nat 34)
                    (name +:+ String (Ascii.ascii_of_nat 34) " (@")),
      ")".
    unfold text.
    change (String (Ascii.ascii_of_nat 34)
              (name +:+ String (Ascii.ascii_of_nat 34) (" (@" +:+ url +:+ ")")))
      with (String (Ascii.ascii_of_nat 34) EmptyString
              +:+ name +:+ String (Ascii.ascii_of_nat 34) EmptyString
              +:+ " (@" +:+ url +:+ ")").
    change (String (Ascii.ascii_of_nat 34)
              (name +:+ String (Ascii.ascii_of_nat 34) " (@"))
      with (String (Ascii.ascii_of_nat 34) EmptyString
              +:+ name +:+ String (Ascii.ascii_of_nat 34) EmptyString
              +:+ " (@").
    by rewrite !string_app_assoc.
Qed.

(** C2, amended. For a command whose context is not private, when the
    service returns a channel that holds [name] and [url], or raises a
    [GenericSubscriptionError], the handler sends exactly two replies:
    first [Groups currently are not supported!], then the success message
    or the error text. *)
Theorem group_command_two_replies command s r s' text :
  private (subscriberContext command) = false ->
  subscribe command s = (r, s') ->
  answered r text ->
  sent subscribe command s = [unsupported; text].
Proof.
  intros Hp Hs Ha.
  unfold sent, trace. rewrite (run_answered _ _ _ _ _ Hs Ha). simpl.
  etrans; [apply replies_run_answered |].
  by rewrite replies_guard, Hp.
Qed.

(** C10. For a command whose context is private, when the service
    returns a channel (holding [name] and [url]) or raises a
    [GenericSubscriptionError], the handler ends normally and sends
    exactly one reply: the success message in the first case, the error
    text in the second. *)
Theorem private_command_one_reply command s r s' text :
  private (subscriberContext command) = true ->
  subscribe command s = (r, s') ->
  answered r text ->
  outcome subscribe command s = Return tt
  /\ sent subscribe command s = [text].
Proof.
  intros Hp Hs Ha.
  unfold outcome, sent, trace. rewrite (run_answered _ _ _ _ _ Hs Ha). simpl.
  split; [reflexivity |].
  etrans; [apply replies_run_answered |].
  by rewrite replies_guard, Hp.
Qed.

(** C9. The handler catches [GenericSubscriptionError] only.  When the
    service raises an exception of another class, or returns a channel
    without the [name] or the [url] key, so that formatting the success
    message raises [KeyError], that exception leaves [execute]: it is the
    outcome of the run, the service call is the last call made, and the
    replies sent are those of the context check alone, so no success
    reply is sent. *)
Theorem other_exceptions_propagate command s r s' e :
  subscribe command s = (r, s') ->
  escapes r e ->
  outcome subscribe command s = Raise e
  /\ is_subscription_error e = false
  /\ last (trace subscribe command s) = Some (Subscribe command)
  /\ sent subscribe command s = replies (guard_events command).
Proof.
  intros Hs He.
  unfold outcome, sent, trace. rewrite (run_escapes _ _ _ _ _ Hs He). simpl.
  split; [reflexivity |]. split; [by eapply escapes_not_caught |]. split.
  - unfold guard_events. destruct (private _); reflexivity.
  - apply replies_run_escapes.
Qed.

End HandlerFacts.

(** * Further properties of the handler *)

Section HandlerRuns.

Context {Service : Type}.
Variable subscribe : Command -> Service -> result Channel * Service.

(** Every run, in full: the handler either answers the service's outcome
    or lets an exception out, and the service state is the one the
    service call left. *)
Lemma run_cases command s :
  (exists text,
     run subscribe command s =
       (Return tt,
        mkWorld (subscribe command s).2
          (IsPrivate command :: guard_events command
             ++ [Subscribe command; Reply command text])))
  \/ (exists e,
     is_subscription_error e = false
     /\ run subscribe command s =
          (Raise e,
           mkWorld (subscribe command s).2
             (IsPrivate command :: guard_events command
                ++ [Subscribe command]))).
Proof.
  destruct (subscribe command s) as [r s'] eqn:Hs. simpl.
  destruct (answered_or_escapes r) as [[text Ha] | [e He]].
  - left. exists text. by apply run_answered with r.
  - right. exists e. split; [by eapply escapes_not_caught |].
    by apply run_escapes with r.
Qed.

Lemma string_length_app (a b : string) :
  String.length (a +:+ b) = String.length a + String.length b.
Proof.
  induction a as [| x a IH]; [reflexivity |].
  change (S (String.length (a +:+ b)) = S (String.length a + String.length b)).
  by rewrite IH.
Qed.

(** X1. Every run of [execute] ends in one of two ways.  Either it
    returns normally, and then its last call is a reply sent right after
    the service call; or it raises, and then the exception is not a
    [GenericSubscriptionError] and the service call is the last call, so
    nothing is replied about the subscription. *)
Theorem run_answers_or_raises command s :
  (outcome subscribe command s = Return tt
   /\ exists text,
        trace subscribe command s =
          IsPrivate command :: guard_events command
            ++ [Subscribe command; Reply command text])
  \/ (exists e,
        outcome subscribe command s = Raise e
        /\ is_subscription_error e = false
        /\ trace subscribe command s =
             IsPrivate command :: guard_events command
               ++ [Subscribe command]).
Proof.
  unfold outcome, trace.
  destruct (run_cases command s) as [[text ->] | [e [He ->]]]; simpl.
  - left. split; [reflexivity |]. by exists text.
  - right. exists e. by repeat split.
Qed.

(** X2. In every run, whatever the context of the command and whatever
    the service does, [subscriptions.subscribe] is called exactly once,
    and the state the service is left in is the one that single call
    produced: the handler neither retries nor undoes it. *)
Theorem service_called_exactly_once command s :
  service_calls (trace subscribe command s) = 1
  /\ service (run subscribe command s).2 = (subscribe command s).2.
Proof.
  unfold trace, service_calls.
  destruct (run_cases command s) as [[text ->] | [e [_ ->]]]; simpl;
    (split; [| reflexivity]);
    unfold guard_events; destruct (private _); reflexivity.
Qed.

(** X3. The number of replies of a run is bounded by the context alone:
    a private command gets at most one reply, a command that is not
    private gets at least one and at most two. *)
Theorem reply_count_bounds command s :
  let n := length (sent subscribe command s) in
  if private (subscriberContext command) then n <= 1 else 1 <= n <= 2.
Proof.
  unfold sent, trace.
  destruct (run_cases command s) as [[text ->] | [e [_ ->]]]; simpl;
    unfold guard_events; destruct (private _); simpl; lia.
Qed.

(** X4. Every call the handler makes is about the command it was given:
    the context asked is that command's, the service is called with it,
    and every reply is addressed to it. *)
Theorem calls_concern_the_command command s :
  Forall (fun ev => event_command ev = command) (trace subscribe command s).
Proof.
  unfold trace.
  destruct (run_cases command s) as [[text ->] | [e [_ ->]]]; simpl;
    unfold guard_events; destruct (private _); simpl;
    repeat constructor.
Qed.

(** X5. The context of the command changes nothing but the first reply.
    When the service treats a private command and one that is not
    private alike, the two runs end the same way, and the replies to the
    second are the rejection text followed by the replies to the first. *)
Theorem context_changes_first_reply_only command1 s1 command2 s2 :
  private (subscriberContext command1) = true ->
  private (subscriberContext command2) = false ->
  (subscribe command1 s1).1 = (subscribe command2 s2).1 ->
  outcome subscribe command1 s1 = outcome subscribe command2 s2
  /\ sent subscribe command2 s2 = unsupported :: sent subscribe command1 s1.
Proof.
  intros Hp1 Hp2 Hsame.
  destruct (subscribe command1 s1) as [r s1'] eqn:Hs1.
  destruct (subscribe command2 s2) as [r2 s2'] eqn:Hs2.
  simpl in Hsame. subst r2.
  unfold outcome, sent, trace.
  destruct (answered_or_escapes r) as [[text Ha] | [e He]].
  - rewrite (run_answered _ _ _ _ _ _ Hs1 Ha), (run_answered _ _ _ _ _ _ Hs2 Ha).
    simpl. unfold guard_events. rewrite Hp1, Hp2. by split.
  - rewrite (run_escapes _ _ _ _ _ _ Hs1 He), (run_escapes _ _ _ _ _ _ Hs2 He).
    simpl. unfold guard_events. rewrite Hp1, Hp2. by split.
Qed.

(** X6. The success message is 33 characters longer than the name and
    the url taken together, and it is never the rejection text. *)
Theorem success_text_shape name url :
  String.length (format_subscribed name url)
    = 33 + String.length name + String.length url
  /\ format_subscribed name url <> unsupported.
Proof.
  split.
  - unfold format_subscribed. rewrite !string_length_app. simpl. lia.
  - discriminate.
Qed.

End HandlerRuns.

(** * The handler on sample commands *)

(** C1. A group chat asks for a channel.  The claim says the service is
    never invoked for it; the handler replies that groups are not
    supported and then calls [subscriptions.subscribe] all the same,
    whatever the service is, and with a service that returns the channel
    it goes on to confirm the subscription. *)
Theorem group_command_reaches_service :
  (forall (Service : Type)
      (subscribe : Command -> Service -> result Channel * Service)
      (s : Service),
      Subscribe g1_subscribes ∈ trace subscribe g1_subscribes s)
  /\ trace (returning tech_news) g1_subscribes tt =
       [IsPrivate g1_subscribes;
        Reply g1_subscribes "Groups currently are not supported!";
        Subscribe g1_subscribes;
        Reply g1_subscribes
          (format_subscribed "Tech News" "https://example.com/tech")].
Proof.
  split; [| reflexivity].
  intros Service subscribe s. apply service_called.
Qed.

(** C2, as stated, fails.  The group chat asks for a channel and the
    service raises an exception that is not a subscription error: the
    exception leaves the handler and the rejection text is the only
    reply, so fewer than two replies are sent. *)
Lemma group_command_one_reply_counterexample :
  private (subscriberContext g1_subscribes) = false
  /\ outcome (raising timed_out) g1_subscribes tt = Raise timed_out
  /\ sent (raising timed_out) g1_subscribes tt =
       ["Groups currently are not supported!"]
  /\ ~ (2 <= length (sent (raising timed_out) g1_subscribes tt)).
Proof.
  split; [reflexivity |]. split; [reflexivity |]. split; [reflexivity |].
  vm_compute. lia.
Qed.

Lemma group_command_two_replies_witness :
  private (subscriberContext g1_subscribes) = false
  /\ raising (GenericSubscriptionError "No such channel") g1_subscribes tt
       = (Raise (GenericSubscriptionError "No such channel"), tt)
  /\ answered (Raise (GenericSubscriptionError "No such channel"))
       (str (GenericSubscriptionError "No such channel"))
  /\ sent (raising (GenericSubscriptionError "No such channel"))
       g1_subscribes tt
     = [unsupported; str (GenericSubscriptionError "No such channel")].
Proof.
  split; [reflexivity |]. split; [reflexivity |].
  split; [apply answered_error; reflexivity |].
  apply (group_command_two_replies
           (raising (GenericSubscriptionError "No such channel"))
           g1_subscribes tt _ tt _ eq_refl eq_refl).
  apply answered_error; reflexivity.
Defined.

Lemma subscription_error_is_replied_witness :
  raising (GenericSubscriptionError "No such channel") u1_subscribes tt
    = (Raise (GenericSubscriptionError "No such channel"), tt)
  /\ is_subscription_error (GenericSubscriptionError "No such channel") = true
  /\ outcome (raising (GenericSubscriptionError "No such channel"))
       u1_subscribes tt = Return tt
  /\ sent (raising (GenericSubscriptionError "No such channel"))
       u1_subscribes tt = ["No such channel"].
Proof.
  split; [reflexivity |]. split; [reflexivity |].
  destruct (subscription_error_is_replied
              (raising (GenericSubscriptionError "No such channel"))
              u1_subscribes tt _ tt eq_refl eq_refl) as [Ho [_ Hs]].
  split; [exact Ho | exact Hs].
Defined.

(** The scenario of the specification: the private subscriber U1 asks
    for [tech-news], which resolves to the channel named Tech News; the
    one reply reads [Successfully subscribed to "Tech News"
    (@https://example.com/tech)]. *)
Lemma success_reply_names_channel_witness :
  returning tech_news u1_subscribes tt = (Return tech_news, tt)
  /\ tech_news !! "name" = Some "Tech News"
  /\ tech_news !! "url" = Some "https://example.com/tech"
  /\ sent (returning tech_news) u1_subscribes tt =
       ["Successfully subscribed to "
          +:+ String (Ascii.ascii_of_nat 34)
                ("Tech News"
                   +:+ String (Ascii.ascii_of_nat 34)
                         " (@https://example.com/tech)")]
  /\ contains "Tech News"
       ("Successfully subscribed to "
          +:+ String (Ascii.ascii_of_nat 34)
                ("Tech News"
                   +:+ String (Ascii.ascii_of_nat 34)
                         " (@https://example.com/tech)"))
  /\ contains "https://example.com/tech"
       ("Successfully subscribed to "
          +:+ String (Ascii.ascii_of_nat 34)
                ("Tech News"
                   +:+ String (Ascii.ascii_of_nat 34)
                         " (@https://example.com/tech)")).
Proof.
  split; [reflexivity |]. split; [reflexivity |]. split; [reflexivity |].
  destruct (success_reply_names_channel (returning tech_news)
              u1_subscribes tt tech_news tt "Tech News"
              "https://example.com/tech" eq_refl eq_refl eq_refl)
    as [_ [_ [Hs [Hn Hu]]]].
  split; [exact Hs |]. split; [exact Hn | exact Hu].
Defined.

Lemma private_command_one_reply_witness :
  private (subscriberContext u1_subscribes) = true
  /\ returning tech_news u1_subscribes tt = (Return tech_news, tt)
  /\ answered (Return tech_news)
       (format_subscribed "Tech News" "https://example.com/tech")
  /\ outcome (returning tech_news) u1_subscribes tt = Return tt
  /\ sent (returning tech_news) u1_subscribes tt =
       [format_subscribed "Tech News" "https://example.com/tech"].
Proof.
  split; [reflexivity |]. split; [reflexivity |].
  split; [apply answered_channel; reflexivity |].
  apply (private_command_one_reply (returning tech_news) u1_subscribes tt
           _ tt _ eq_refl eq_refl).
  apply answered_channel; reflexivity.
Defined.

(** The private chat and the group chat get the same channel back: the
    group chat reads the rejection first, then the same confirmation. *)
Lemma context_changes_first_reply_only_witness :
  private (subscriberContext u1_subscribes) = true
  /\ private (subscriberContext g1_subscribes) = false
  /\ (returning tech_news u1_subscribes tt).1
     = (returning tech_news g1_subscribes tt).1
  /\ outcome (returning tech_news) u1_subscribes tt
     = outcome (returning tech_news) g1_subscribes tt
  /\ sent (returning tech_news) g1_subscribes tt
     = unsupported :: sent (returning tech_news) u1_subscribes tt.
Proof.
  split; [reflexivity |]. split; [reflexivity |]. split; [reflexivity |].
  apply (context_changes_first_reply_only (returning tech_news)
           u1_subscribes tt g1_subscribes tt eq_refl eq_refl eq_refl).
Defined.

(** A channel without its [url]: the [KeyError] leaves the handler. *)
Lemma other_exceptions_propagate_witness :
  returning tech_news_no_url u1_subscribes tt = (Return tech_news_no_url, tt)
  /\ escapes (Return tech_news_no_url) (KeyError "url")
  /\ outcome (returning tech_news_no_url) u1_subscribes tt
     = Raise (KeyError "url")
  /\ sent (returning tech_news_no_url) u1_subscribes tt = [].
Proof.
  split; [reflexivity |].
  split; [apply (escapes_no_url tech_news_no_url "Tech News"); reflexivity |].
  destruct (other_exceptions_propagate
              (returning tech_news_no_url) u1_subscribes tt
              _ tt (KeyError "url") eq_refl
              (escapes_no_url tech_news_no_url "Tech News" eq_refl eq_refl))
    as [Ho [_ [_ Hs]]].
  split; [exact Ho | exact Hs].
Defined.

(** * Properties of the subscription service *)

Module ManagerFacts.

Import Manager.

Section Provider.

Variable fetchMetadata : string -> option Metadata.

Lemma count_absent subscriber channel table :
  subscribed subscriber channel table = false ->
  count subscriber channel table = 0.
Proof.
  unfold subscribed, count.
  induction table as [| s table IH]; simpl; [reflexivity |].
  destruct (same_pair subscriber channel s); simpl; [discriminate | exact IH].
Qed.

Lemma count_present subscriber channel table :
  subscribed subscriber channel table = true ->
  1 <= count subscriber channel table.
Proof.
  unfold subscribed, count.
  induction table as [| s table IH]; simpl; [discriminate |].
  destruct (same_pair subscriber channel s); simpl; [lia | exact IH].
Qed.

Lemma same_pair_new subscriber channel now :
  same_pair subscriber channel (mkSubscription subscriber channel now) = true.
Proof. unfold same_pair. simpl. by rewrite bool_decide_eq_true. Qed.

(** A channel that resolved once is known from then on. *)
Lemma resolve_registers raw known ch known' :
  resolve fetchMetadata raw known = (inl ch, known') ->
  known' !! raw = Some ch.
Proof.
  unfold resolve. intros H.
  destruct (known !! raw) as [ch0 |] eqn:Hk.
  - by simplify_eq.
  - destruct (fetchMetadata raw) as [m |]; simplify_eq.
    by rewrite lookup_insert_eq.
Qed.

Lemma resolve_known raw known ch :
  known !! raw = Some ch ->
  resolve fetchMetadata raw known = (inl ch, known).
Proof. unfold resolve. by intros ->. Qed.

(** [Store.add] keeps the Store invariant. *)
Lemma add_at_most_one subscriber channel now table :
  at_most_one table ->
  at_most_one (add subscriber channel now table).2.
Proof.
  intros Hinv. unfold add.
  destruct (subscribed subscriber channel table) eqn:Hs; simpl; [exact Hinv |].
  intros sub ch. specialize (Hinv sub ch). unfold count in *. simpl.
  destruct (same_pair sub ch (mkSubscription subscriber channel now)) eqn:Hp;
    simpl; [| exact Hinv].
  unfold same_pair in Hp. simpl in Hp.
  apply bool_decide_eq_true in Hp as [<- <-].
  apply count_absent in Hs. unfold count in Hs. lia.
Qed.

(** [subscribe] keeps the Store invariant, whatever it answers. *)
Lemma subscribe_at_most_one subscriber raw st :
  at_most_one (store st) ->
  at_most_one (store (subscribe fetchMetadata subscriber raw st).2).
Proof.
  intros Hinv. unfold subscribe.
  destruct (negb (private subscriber)); simpl; [exact Hinv |].
  destruct (resolve fetchMetadata raw (registry st)) as [[ch | e] known];
    simpl; [| exact Hinv].
  pose proof (add_at_most_one (chat_id subscriber) (identifier ch) (clock st)
                (store st) Hinv) as Hadd.
  destruct (add (chat_id subscriber) (identifier ch) (clock st) (store st))
    as [[s |] table]; exact Hadd.
Qed.

(** C5. Subscribe is idempotent at the subscription level: for a private
    subscriber and an identifier that resolves to channel [ch], in a
    Store that holds each pair at most once, calling [subscribe] twice
    with the same subscriber and identifier leaves exactly one
    Subscription for the pair; the second call signals
    [AlreadySubscribed] with that channel and leaves the Subscription
    table as the first call left it. *)
Theorem subscribe_twice subscriber raw st ch known :
  at_most_one (store st) ->
  private subscriber = true ->
  resolve fetchMetadata raw (registry st) = (inl ch, known) ->
  let st1 := (subscribe fetchMetadata subscriber raw st).2 in
  let second := subscribe fetchMetadata subscriber raw st1 in
  second.1 = inr (AlreadySubscribed ch)
  /\ store second.2 = store st1
  /\ count (chat_id subscriber) (identifier ch) (store second.2) = 1.
Proof.
  intros Hinv Hp Hres. unfold subscribe. rewrite Hp. simpl. rewrite Hres.
  pose proof (resolve_known raw known ch (resolve_registers _ _ _ _ Hres))
    as Hagain.
  unfold add.
  destruct (subscribed (chat_id subscriber) (identifier ch) (store st))
    eqn:Hs; simpl; rewrite Hagain; simpl.
  - rewrite Hs. simpl. repeat split.
    pose proof (Hinv (chat_id subscriber) (identifier ch)).
    pose proof (count_present _ _ _ Hs). lia.
  - unfold subscribed at 1. simpl. rewrite same_pair_new. simpl.
    repeat split.
    unfold count. simpl. rewrite same_pair_new. simpl.
    apply count_absent in Hs. unfold count in Hs. lia.
Qed.

End Provider.

End ManagerFacts.

(** * Properties of the fanout dispatcher *)

Module DispatcherFacts.

Import Dispatcher.

Section Fanout.

Variable attempt_cap : nat.

Lemma received_app k log1 log2 :
  received k (log1 ++ log2) = received k log1 + received k log2.
Proof. unfold received. by rewrite List.filter_app, length_app. Qed.

Lemma received_one k : received k [k] = 1.
Proof. unfold received. simpl. by rewrite bool_decide_eq_true_2. Qed.

Lemma received_other k k' : k' <> k -> received k [k'] = 0.
Proof. intros H. unfold received. simpl. by rewrite bool_decide_eq_false_2. Qed.

Lemma succeeded_cons k k' b table :
  succeeded k ((k', b) :: table) =
    bool_decide ((k', b) = (k, true)) || succeeded k table.
Proof. reflexivity. Qed.

Lemma empty_consistent : consistent empty.
Proof. intros k. unfold received. simpl. split; [lia | reflexivity]. Qed.

Lemma deliver_to_consistent channel item deliver st subscriber :
  consistent st ->
  consistent (deliver_to attempt_cap channel item deliver st subscriber).
Proof.
  intros Hinv. unfold deliver_to.
  set (k0 := (channel, item_id item, subscriber)).
  destruct (succeeded k0 (records st)) eqn:Hk0; [exact Hinv |].
  destruct (attempt attempt_cap deliver subscriber item attempt_cap);
    intros k; destruct (Hinv k) as [Hle Hzero]; cbn [records handed_over].
  - rewrite received_app, succeeded_cons.
    destruct (decide (k0 = k)) as [-> | Hne].
    + rewrite received_one, (Hzero Hk0).
      rewrite bool_decide_eq_true_2 by reflexivity. simpl.
      split; [lia | discriminate].
    + rewrite (received_other k k0 Hne).
      rewrite bool_decide_eq_false_2 by congruence. simpl.
      split; [lia |]. intros H. rewrite (Hzero H). lia.
  - rewrite succeeded_cons.
    rewrite bool_decide_eq_false_2 by congruence. simpl.
    split; [exact Hle | exact Hzero].
Qed.

Lemma dispatch_consistent channel item deliver snapshot st :
  consistent st ->
  consistent (dispatch attempt_cap channel item deliver snapshot st).
Proof.
  unfold dispatch. revert st.
  induction snapshot as [| subscriber snapshot IH]; intros st Hinv; simpl;
    [exact Hinv |].
  apply IH. by apply deliver_to_consistent.
Qed.

Lemma history_consistent history st :
  consistent st ->
  consistent (foldl (perform attempt_cap) st history).
Proof.
  revert st. induction history as [| r history IH]; intros st Hinv; simpl;
    [exact Hinv |].
  apply IH. by apply dispatch_consistent.
Qed.

(** A key with a successful record is skipped: the record stays and
    nothing more is handed over for it. *)
Lemma deliver_to_skips k channel item deliver st subscriber :
  succeeded k (records st) = true ->
  let st' := deliver_to attempt_cap channel item deliver st subscriber in
  succeeded k (records st') = true
  /\ received k (handed_over st') = received k (handed_over st).
Proof.
  intros Hk. unfold deliver_to.
  set (k0 := (channel, item_id item, subscriber)).
  destruct (succeeded k0 (records st)) eqn:Hk0;
    cbn [records handed_over]; [by split |].
  assert (k0 <> k) as Hne by (intros ->; congruence).
  destruct (attempt attempt_cap deliver subscriber item attempt_cap);
    cbn [records handed_over];
    rewrite succeeded_cons, Hk, orb_true_r; split; try reflexivity.
  rewrite received_app, (received_other k k0 Hne). lia.
Qed.

Lemma dispatch_skips k channel item deliver snapshot st :
  succeeded k (records st) = true ->
  received k (handed_over (dispatch attempt_cap channel item deliver snapshot st))
    = received k (handed_over st).
Proof.
  unfold dispatch. revert st.
  induction snapshot as [| subscriber snapshot IH]; intros st Hk; simpl;
    [reflexivity |].
  destruct (deliver_to_skips k channel item deliver st subscriber Hk)
    as [Hk' Heq].
  rewrite (IH _ Hk'). exact Heq.
Qed.

(** C7. At-most-once delivery per item and subscriber.  After any history
    of dispatch runs, complete or cut short, and one more run [r], of any
    item to any snapshot of subscribers, no (channel, item, subscriber)
    key has been handed over by the transport more than once; and the run
    [r] hands nothing over for a key that already had a successful
    DeliveryRecord when it started. *)
Theorem at_most_once_delivery history r k :
  let st := after attempt_cap history in
  let st' := perform attempt_cap st r in
  received k (handed_over st') <= 1
  /\ (succeeded k (records st) = false
      \/ received k (handed_over st') = received k (handed_over st)).
Proof.
  intros st st'. split.
  - assert (consistent st') as Hinv.
    { apply dispatch_consistent, history_consistent, empty_consistent. }
    apply Hinv.
  - destruct (succeeded k (records st)) eqn:Hk; [right | by left].
    by apply dispatch_skips.
Qed.

(** One action of the loop leaves the cursor or moves it strictly up. *)
Lemma step_cursor l a :
  cursor (channel (step attempt_cap l a)) = cursor (channel l)
  \/ (cursor (channel l) < cursor (channel (step attempt_cap l a)))%Z.
Proof.
  destruct a as [items | i deliver snapshot]; simpl; [by left |].
  destruct (in_flight l !! i) as [[| item rest] |]; try by left.
  unfold ingest, is_new. simpl.
  case_bool_decide; simpl; [by right | by left].
Qed.

Lemma step_cursor_le l a :
  (cursor (channel l) <= cursor (channel (step attempt_cap l a)))%Z.
Proof. destruct (step_cursor l a); lia. Qed.

Lemma schedule_cursor_le l schedule :
  (cursor (channel l)
   <= cursor (channel (execute_schedule attempt_cap l schedule)))%Z.
Proof.
  unfold execute_schedule. revert l.
  induction schedule as [| a schedule IH]; intros l; simpl; [lia |].
  pose proof (step_cursor_le l a). pose proof (IH (step attempt_cap l a)). lia.
Qed.

Lemma cursor_history_sorted l schedule :
  StronglySorted Z.le
    (cursor (channel l) :: cursor_history attempt_cap l schedule).
Proof.
  revert l. induction schedule as [| a schedule IH]; intros l; simpl.
  - repeat constructor.
  - specialize (IH (step attempt_cap l a)).
    pose proof (step_cursor_le l a) as Hle.
    constructor; [exact IH |].
    apply StronglySorted_inv in IH as [_ Hall].
    constructor; [exact Hle |].
    eapply Forall_impl; [exact Hall |]. simpl. intros c Hc. lia.
Qed.

(** C8. Cursor monotonicity.  Along every schedule of the per-channel
    loop, with polls returning and their items being processed in any
    interleaving, the cursors the channel goes through never decrease,
    and every action that changes the cursor moves it to a strictly
    greater position. *)
Theorem cursor_never_decreases l schedule a :
  let l' := execute_schedule attempt_cap l schedule in
  StronglySorted Z.le
    (cursor (channel l) :: cursor_history attempt_cap l schedule)
  /\ (cursor (channel l) <= cursor (channel l'))%Z
  /\ (cursor (channel (step attempt_cap l' a)) = cursor (channel l')
      \/ (cursor (channel l') < cursor (channel (step attempt_cap l' a)))%Z).
Proof.
  intros l'. split; [apply cursor_history_sorted |].
  split; [apply schedule_cursor_le | apply step_cursor].
Qed.

End Fanout.

End DispatcherFacts.

(** * Scenarios *)

Example format_subscribed_example :
  format_subscribed "a" "b" =
    "Successfully subscribed to "
      +:+ String (Ascii.ascii_of_nat 34) "a"
      +:+ String (Ascii.ascii_of_nat 34) " (@b)".
Proof. reflexivity. Qed.

(** U1 subscribes to [tech-news] twice, starting from an empty service:
    the first call creates the Subscription, the second signals
    [AlreadySubscribed], and the Store holds the pair once. *)
Example first_subscribe_creates :
  Manager.subscribe sample_feed U1 "tech-news" Manager.empty =
    (inl tech_news_channel,
     Manager.mkState [Manager.mkSubscription 1 "tech-news" 0]
       {[ "tech-news" := tech_news_channel ]} 1).
Proof. reflexivity. Qed.

(** The service rejects a group chat and creates nothing. *)
Example group_subscribe_rejected :
  Manager.subscribe sample_feed G1 "tech-news" Manager.empty =
    (inr Manager.UnsupportedContext, Manager.empty).
Proof. reflexivity. Qed.

Lemma subscribe_twice_witness :
  Manager.at_most_one (Manager.store Manager.empty)
  /\ private U1 = true
  /\ Manager.resolve sample_feed "tech-news" (Manager.registry Manager.empty)
     = (inl tech_news_channel, {[ "tech-news" := tech_news_channel ]})
  /\ (Manager.subscribe sample_feed U1 "tech-news"
        (Manager.subscribe sample_feed U1 "tech-news" Manager.empty).2).1
     = inr (Manager.AlreadySubscribed tech_news_channel)
  /\ Manager.count 1 "tech-news"
       (Manager.store
          (Manager.subscribe sample_feed U1 "tech-news"
             (Manager.subscribe sample_feed U1 "tech-news"
                Manager.empty).2).2)
     = 1.
Proof.
  assert (Manager.at_most_one (Manager.store Manager.empty)) as Hinv.
  { intros subscriber channel. unfold Manager.count. simpl. lia. }
  split; [exact Hinv |]. split; [reflexivity |]. split; [reflexivity |].
  destruct (ManagerFacts.subscribe_twice sample_feed U1 "tech-news"
              Manager.empty tech_news_channel
              {[ "tech-news" := tech_news_channel ]}
              Hinv eq_refl eq_refl) as [Hsecond [_ Hcount]].
  split; [exact Hsecond | exact Hcount].
Defined.

(** A run for subscribers 1, 2, 3 crashes after subscriber 1; the re-run
    skips subscriber 1 and reaches the others. *)
Example rerun_after_crash :
  Dispatcher.handed_over
    (Dispatcher.after 3
       [Dispatcher.mkRun "tech-news" I1 reliable [1%Z];
        Dispatcher.mkRun "tech-news" I1 reliable [1%Z; 2%Z; 3%Z]])
  = [("tech-news", 101%Z, 1%Z); ("tech-news", 101%Z, 2%Z);
     ("tech-news", 101%Z, 3%Z)].
Proof. reflexivity. Qed.

(** A permanent failure for subscriber 2 does not block the others. *)
Example permanent_failure_isolated :
  Dispatcher.handed_over
    (Dispatcher.after 3
       [Dispatcher.mkRun "tech-news" I2 failing_for_2 [1%Z; 2%Z; 3%Z]])
  = [("tech-news", 102%Z, 1%Z); ("tech-news", 102%Z, 3%Z)].
Proof. reflexivity. Qed.

(** Two polls overlap: both started at cursor 0, the second returns after
    the first and repeats its first two items.  The repeated items are
    dropped and the cursor stays where the first poll left it. *)
Example overlapping_polls :
  Dispatcher.cursor_history 3
    (Dispatcher.mkLoop tech_news_channel Dispatcher.empty [])
    [Dispatcher.Poll [I1; I2; I3];
     Dispatcher.Poll [I1; I2];
     Dispatcher.Process 0 reliable [1%Z];
     Dispatcher.Process 0 reliable [1%Z];
     Dispatcher.Process 1 reliable [1%Z];
     Dispatcher.Process 0 reliable [1%Z];
     Dispatcher.Process 1 reliable [1%Z]]
  = [0; 0; 1; 2; 2; 3; 3]%Z.
Proof. reflexivity. Qed.

(** The handler in front of the modelled service.  U1 subscribes: the
    Store gains the Subscription and the reply names the channel. *)
Example u1_subscribes_end_to_end :
  run (service_subscribe sample_feed sample_render) u1_subscribes
    Manager.empty
  = (Return tt,
     mkWorld
       (Manager.mkState [Manager.mkSubscription 1 "tech-news" 0]
          {[ "tech-news" := tech_news_channel ]} 1)
       [IsPrivate u1_subscribes;
        Subscribe u1_subscribes;
        Reply u1_subscribes
          (format_subscribed "Tech News" "https://example.com/tech")]).
Proof. reflexivity. Qed.

(** A group chat in front of the modelled service: the handler rejects
    it, calls the service all the same, and relays the service's own
    rejection; the Store stays empty. *)
Example g1_subscribes_end_to_end :
  run (service_subscribe sample_feed sample_render) g1_subscribes
    Manager.empty
  = (Return tt,
     mkWorld Manager.empty
       [IsPrivate g1_subscribes;
        Reply g1_subscribes "Groups currently are not supported!";
        Subscribe g1_subscribes;
        Reply g1_subscribes "This chat cannot subscribe"]).
Proof. reflexivity. Qed.

(** What a [KeyError] prints: the repr of the key, with the quotes Python
    chooses. *)
Example str_key_error_plain : str (KeyError "url") = "'url'".
Proof. reflexivity. Qed.

Example str_key_error_apostrophe :
  str (KeyError "it's") =
    String (Ascii.ascii_of_nat 34) ("it's" +:+ String (Ascii.ascii_of_nat 34) EmptyString).
Proof. reflexivity. Qed.

Example str_key_error_both_quotes :
  str (KeyError ("it's " +:+ String (Ascii.ascii_of_nat 34) "x")) =
    "'it" +:+ String (Ascii.ascii_of_nat 92)
                ("'s " +:+ String (Ascii.ascii_of_nat 34) "x'").
Proof. reflexivity. Qed.

Example str_key_error_control :
  str (KeyError (String (Ascii.ascii_of_nat 10) (String (Ascii.ascii_of_nat 1) "a"))) =
    "'" +:+ String (Ascii.ascii_of_nat 92)
              ("n" +:+ String (Ascii.ascii_of_nat 92) "x01a'").
Proof. reflexivity. Qed.
